(** * The chat front-end: conversation controller and source resolver

    A shallow embedding of the two React components of the repository,
    [Chat] (components/Chat.tsx) and [Source] (components/Source.tsx),
    and the properties of their state handling.

    - JavaScript strings are sequences of UTF-16 code units, [list N].
    - A component's [useState] cells, the console and the network are the
      fields of one record, threaded through a state-and-exception monad.
    - [try]/[catch]/[finally] and [throw] are combinators of that monad.
    - An [async] function is split at its [await]: the part that runs when
      the event fires, and the part that runs when the awaited fetch
      settles.  The environment supplies what the source reads from
      outside: the reading of [Date.now()] and the outcome of the fetch. *)

From Stdlib Require Import List ZArith NArith Bool String Ascii Lia.
From Stdlib Require Import DecimalString DecimalPos DecimalZ.
Import ListNotations.

Set Implicit Arguments.

(** * JavaScript values and control flow *)

Module Js.

(** ** Strings *)

Definition js_string := list N.

(** A string literal of the source (all of them are ASCII). *)
Definition lit (s : string) : js_string :=
  map N_of_ascii (list_ascii_of_string s).

(** [a === b] on strings. *)
Fixpoint str_eqb (a b : js_string) : bool :=
  match a, b with
  | [], [] => true
  | x :: a', y :: b' => N.eqb x y && str_eqb a' b'
  | _, _ => false
  end.

(** ToBoolean on a string: only the empty string is falsy. *)
Definition truthy (s : js_string) : bool :=
  match s with
  | [] => false
  | _ :: _ => true
  end.

(** The code units [String.prototype.trim] strips: ECMAScript WhiteSpace
    (TAB, VT, FF, SP, NBSP, ZWNBSP and the Unicode space separators) and
    LineTerminator (LF, CR, LS, PS). *)
Definition is_whitespace (c : N) : bool :=
  ((9 <=? c) && (c <=? 13)
   || (c =? 32) || (c =? 160) || (c =? 5760)
   || ((8192 <=? c) && (c <=? 8202))
   || (c =? 8232) || (c =? 8233) || (c =? 8239) || (c =? 8287)
   || (c =? 12288) || (c =? 65279))%N.

Fixpoint trimStart (s : js_string) : js_string :=
  match s with
  | [] => []
  | c :: s' => if is_whitespace c then trimStart s' else s
  end.

Definition trimEnd (s : js_string) : js_string :=
  rev (trimStart (rev s)).

Definition trim (s : js_string) : js_string :=
  trimEnd (trimStart s).

(** "Empty or whitespace-only": every code unit is one that [trim]
    strips. *)
Definition blank (s : js_string) : bool := forallb is_whitespace s.

(** [x || d] where [x] is an optional string: [d] replaces [undefined]
    and the empty string. *)
Definition or_default (x : option js_string) (d : js_string) : js_string :=
  match x with
  | Some s => if truthy s then s else d
  | None => d
  end.

(** [x && e] as a React child, where [e] is an element built from [x]:
    the element is rendered when [x] is truthy, nothing otherwise. *)
Definition and_then (x : option js_string) : option js_string :=
  match x with
  | Some s => if truthy s then Some s else None
  | None => None
  end.

(** [{x}] as a React text child: [undefined] renders as nothing. *)
Definition text (x : option js_string) : js_string :=
  match x with
  | Some s => s
  | None => []
  end.

(** [n.toString()] for an integral number. *)
Definition toString (n : Z) : js_string :=
  lit (NilZero.string_of_int (Z.to_int n)).

(** ** Exceptions *)

Inductive exn :=
| Error (message : js_string)
| TypeError (message : js_string)
| SyntaxError (message : js_string).

(** An argument of [console.error]. *)
Inductive logarg :=
| LogStr (s : js_string)
| LogErr (e : exn).

(** ** Statements: state passing with abrupt completion *)

Inductive completion (A : Type) :=
| Normal (a : A)
| Throw (e : exn).
Arguments Throw {A} e.

Definition M (W A : Type) := W -> completion A * W.

Definition ret {W A} (a : A) : M W A := fun w => (Normal a, w).

Definition bind {W A B} (m : M W A) (k : A -> M W B) : M W B :=
  fun w =>
    match m w with
    | (Normal a, w') => k a w'
    | (Throw e, w') => (Throw e, w')
    end.

Definition throw {W A} (e : exn) : M W A := fun w => (Throw e, w).

Definition modify {W} (f : W -> W) : M W unit := fun w => (Normal tt, f w).

(** [try { body } catch (e) { handler e }] *)
Definition try_catch {W A} (body : M W A) (handler : exn -> M W A) : M W A :=
  fun w =>
    match body w with
    | (Normal a, w') => (Normal a, w')
    | (Throw e, w') => handler e w'
    end.

(** [try { body } finally { fin }]: [fin] runs on both completions and
    an abrupt completion of [fin] replaces the one of [body]. *)
Definition try_finally {W A} (body : M W A) (fin : M W unit) : M W A :=
  fun w =>
    match body w with
    | (c, w') =>
        match fin w' with
        | (Normal _, w'') => (c, w'')
        | (Throw e, w'') => (Throw e, w'')
        end
    end.

(** ** The fetch API *)

(** What [await response.json()] gives for a body that is meant to hold
    a [D]: the promise rejects, or the body is the literal [null], or it
    is a record. *)
Inductive payload (D : Type) :=
| Malformed (e : exn)
| JsonNull
| JsonData (d : D).
Arguments Malformed {D} e.
Arguments JsonNull {D}.

(** How an awaited [fetch] settles: the promise rejects (network or
    transport failure), or a response arrives with its [ok] flag.  The
    body is part of the outcome: the code between [await fetch(...)] and
    [await response.json()] touches no state, so the two awaits are
    settled as one. *)
Inductive outcome (D : Type) :=
| NetworkFailure (e : exn)
| Response (ok : bool) (body : payload D).
Arguments NetworkFailure {D} e.

Definition await_fetch {W D} (o : outcome D) : M W (bool * payload D) :=
  match o with
  | NetworkFailure e => throw e
  | Response ok body => ret (ok, body)
  end.

Definition await_json {W D} (body : payload D) : M W (option D) :=
  match body with
  | Malformed e => throw e
  | JsonNull => ret None
  | JsonData d => ret (Some d)
  end.

End Js.

Declare Scope js_scope.
Notation "x <- m ;; k" := (Js.bind m (fun x => k))
  (at level 61, m at next level, right associativity) : js_scope.
Notation "m ;; k" := (Js.bind m (fun _ => k))
  (at level 61, right associativity) : js_scope.

Local Open Scope js_scope.

(** * Chat.tsx: the conversation controller *)

Module Chat.
Import Js.

Inductive Role := user | assistant.

(** [{ object_id: string; collection: string }] *)
Record SourceRef := {
  object_id : js_string;
  ref_collection : js_string
}.

(** [interface Message]; [sources] is optional. *)
Record Message := {
  id : js_string;
  role : Role;
  content : js_string;
  sources : option (list SourceRef)
}.

(** The success body of [/api/chat], read through [data.response] and
    [data.sources]; either property may be missing.  A property that is
    there has the type [Message] declares for the field it fills. *)
Record ChatData := {
  response : option js_string;
  data_sources : option (list SourceRef)
}.

(** An entry of the request's [messages] array: [{ role, content }]. *)
Record WireMessage := {
  wire_role : Role;
  wire_content : js_string
}.

(** The arguments of one [fetch] call; [body] is the value handed to
    [JSON.stringify]. *)
Record Request := {
  url : js_string;
  method : js_string;
  content_type : js_string;
  body : list WireMessage
}.

(** The three [useState] cells of the component, the console, and the
    network: the requests issued so far and how many are in flight. *)
Record chat := {
  messages : list Message;
  input : js_string;
  isLoading : bool;
  console : list (list logarg);
  requests : list Request;
  inflight : nat
}.

Definition initial : chat :=
  {| messages := []; input := []; isLoading := false;
     console := []; requests := []; inflight := 0 |}.

Definition setMessages (f : list Message -> list Message) : M chat unit :=
  modify (fun w =>
    {| messages := f (messages w); input := input w;
       isLoading := isLoading w; console := console w;
       requests := requests w; inflight := inflight w |}).

Definition setInput (s : js_string) : M chat unit :=
  modify (fun w =>
    {| messages := messages w; input := s;
       isLoading := isLoading w; console := console w;
       requests := requests w; inflight := inflight w |}).

Definition setIsLoading (b : bool) : M chat unit :=
  modify (fun w =>
    {| messages := messages w; input := input w;
       isLoading := b; console := console w;
       requests := requests w; inflight := inflight w |}).

Definition console_error (args : list logarg) : M chat unit :=
  modify (fun w =>
    {| messages := messages w; input := input w;
       isLoading := isLoading w; console := console w ++ [args];
       requests := requests w; inflight := inflight w |}).

(** The call [fetch(url, init)]: the request leaves and its promise is
    pending. *)
Definition fetch (r : Request) : M chat unit :=
  modify (fun w =>
    {| messages := messages w; input := input w;
       isLoading := isLoading w; console := console w;
       requests := requests w ++ [r]; inflight := S (inflight w) |}).

(** The pending promise settles. *)
Definition settle (o : outcome ChatData) : M chat (bool * payload ChatData) :=
  modify (fun w =>
    {| messages := messages w; input := input w;
       isLoading := isLoading w; console := console w;
       requests := requests w; inflight := pred (inflight w) |}) ;;
  await_fetch o.

Definition no_answer : js_string :=
  lit "I received your message but got no answer.".

Definition apology : js_string :=
  lit "Sorry, something went wrong. Please try again.".

(** [data.response] and [data.sources]; reading a property of [null]
    throws. *)
Definition properties (data : option ChatData) : M chat ChatData :=
  match data with
  | Some d => ret d
  | None =>
      throw (TypeError
               (lit "Cannot read properties of null (reading 'response')"))
  end.

(** [msg => ({ role: msg.role, content: msg.content })] *)
Definition to_wire (msg : Message) : WireMessage :=
  {| wire_role := role msg; wire_content := content msg |}.

Definition userMessage (now : Z) (snap : chat) : Message :=
  {| id := toString now;
     role := user;
     content := trim (input snap);
     sources := None |}.

Definition assistantMessage (now : Z) (data : ChatData) : Message :=
  {| id := toString (now + 1);
     role := assistant;
     content := or_default (response data) no_answer;
     sources := Some (match data_sources data with
                      | Some l => l
                      | None => []
                      end) |}.

Definition errorMessage (now : Z) : Message :=
  {| id := toString (now + 1);
     role := assistant;
     content := apology;
     sources := None |}.

(** Where an [async] function stands when control goes back to the
    event loop: it has returned, or it is suspended at its [await]. *)
Inductive progress := Returned | Awaiting.

(** [handleSubmit] up to the point where it awaits the fetch.  [snap]
    holds the values of [messages], [input] and [isLoading] that the
    closure of the current render captured, [now] is the reading of
    [Date.now()].  ([e.preventDefault()] touches none of the state.) *)
Definition handleSubmit_begin (snap : chat) (now : Z) : M chat progress :=
  if negb (truthy (trim (input snap))) || isLoading snap then ret Returned
  else
    let newMessages := messages snap ++ [userMessage now snap] in
    setMessages (fun _ => newMessages) ;;
    setInput [] ;;
    setIsLoading true ;;
    fetch {| url := lit "http://127.0.0.1:8000/api/chat";
             method := lit "POST";
             content_type := lit "application/json";
             body := map to_wire newMessages |} ;;
    ret Awaiting.

(** [handleSubmit] from the point where the fetch settles: the rest of
    the [try] block, the [catch] and the [finally].  [now] is the
    reading of [Date.now()] when the reply is built. *)
Definition handleSubmit_resume (now : Z) (o : outcome ChatData)
  : M chat unit :=
  try_finally
    (try_catch
       (resp <- settle o ;;
        (if negb (fst resp)
         then throw (Error (lit "Failed to fetch response"))
         else ret tt) ;;
        json <- await_json (snd resp) ;;
        data <- properties json ;;
        setMessages (fun prev => prev ++ [assistantMessage now data]))
       (fun error =>
          console_error [LogStr (lit "Error:"); LogErr error] ;;
          setMessages (fun prev => prev ++ [errorMessage now])))
    (setIsLoading false).

(** One whole run of [handleSubmit] with nothing happening in between:
    submitted at [now1], settled with [o] at [now2]. *)
Definition handleSubmit (now1 now2 : Z) (o : outcome ChatData)
  : M chat unit :=
  fun w =>
    (p <- handleSubmit_begin w now1 ;;
     match p with
     | Returned => ret tt
     | Awaiting => handleSubmit_resume now2 o
     end) w.

(** ** Vocabulary for the outcomes of a request *)


(** The error that reaches the [catch] block, if any. *)
Definition caught (o : outcome ChatData) : option exn :=
  match o with
  | NetworkFailure e => Some e
  | Response false _ => Some (Error (lit "Failed to fetch response"))
  | Response true (Malformed e) => Some e
  | Response true JsonNull =>
      Some (TypeError
              (lit "Cannot read properties of null (reading 'response')"))
  | Response true (JsonData _) => None
  end.

(** The message that the settled request appends. *)
Definition reply (now : Z) (o : outcome ChatData) : Message :=
  match o with
  | Response true (JsonData d) => assistantMessage now d
  | _ => errorMessage now
  end.

(** ** A session *)

(** What can happen to the mounted component: the user edits the input
    box ([onChange]), the form is submitted ([onSubmit]), or the pending
    fetch settles. *)
Inductive event :=
| Change (value : js_string)
| Submit (now : Z)
| Settle (now : Z) (o : outcome ChatData).

(** The state after the event; an abrupt completion of a handler leaves
    the state it reached.  React renders again after every event, so the
    handler that fires was built by the latest render and its closure
    holds the current state: [handleSubmit_begin] gets [w] as its
    snapshot.  [Settle] needs a request in flight. *)
Definition step (w : chat) (e : event) : chat :=
  match e with
  | Change value => snd (setInput value w)
  | Submit now => snd (handleSubmit_begin w now w)
  | Settle now o =>
      match inflight w with
      | O => w
      | S _ => snd (handleSubmit_resume now o w)
      end
  end.

Definition run (w : chat) (es : list event) : chat :=
  fold_left step es w.

(** The [id]s in the list, which the render uses as React keys. *)
Definition keys (w : chat) : list js_string :=
  map id (messages w).

(** What an event adds to the message list. *)
Definition appended (w : chat) (e : event) : list Message :=
  match e with
  | Change _ => []
  | Submit now =>
      if blank (input w) || isLoading w then [] else [userMessage now w]
  | Settle now o =>
      match inflight w with
      | O => []
      | S _ => [reply now o]
      end
  end.

(** Clock readings that keep the [id]s apart.  [next] is the least
    value a new [id] may take: a submit must read at least [next], a
    settled request at least [next - 1].  So a reply may be built in the
    millisecond of its question, but a submit must read a value past the
    [id] of the reply before it. *)
Fixpoint spaced (next : Z) (es : list event) : Prop :=
  match es with
  | [] => True
  | Change _ :: es' => spaced next es'
  | Submit now :: es' => (next <= now)%Z /\ spaced (now + 1) es'
  | Settle now _ :: es' => (next <= now + 1)%Z /\ spaced (now + 2) es'
  end.

(** Every [id] in the list prints a number below [next], and no two are
    equal. *)
Definition ids_below (next : Z) (w : chat) : Prop :=
  NoDup (keys w)
  /\ forall k, In k (keys w) -> exists z, k = toString z /\ (z < next)%Z.

(** A session up to the point where a question is waiting for its
    answer. *)
Definition asked : chat :=
  run initial [Change (lit "capital of France?"); Submit 1000].

End Chat.

(** * Source.tsx: the source resolver *)

Module Source.
Import Js.

(** [interface SourceData]: every named field is optional.  The index
    signature admits further fields, which the component never reads. *)
Record SourceData := {
  title : option js_string;
  date : option js_string;
  abstract : option js_string;
  pdf_url : option js_string;
  chunk_text : option js_string;
  pdf_title : option js_string;
  pdf_date : option js_string
}.

(** The body handed to [JSON.stringify]:
    [{ object_id: objectId, collection: collection }]. *)
Record Request := {
  url : js_string;
  method : js_string;
  content_type : js_string;
  body_object_id : js_string;
  body_collection : js_string
}.

(** The three [useState] cells, the console and the network. *)
Record source := {
  data : option SourceData;
  loading : bool;
  error : bool;
  console : list (list logarg);
  requests : list Request
}.

(** The state at mount: [useState(null)], [useState(true)],
    [useState(false)]. *)
Definition initial : source :=
  {| data := None; loading := true; error := false;
     console := []; requests := [] |}.

Definition setData (d : option SourceData) : M source unit :=
  modify (fun w =>
    {| data := d; loading := loading w; error := error w;
       console := console w; requests := requests w |}).

Definition setLoading (b : bool) : M source unit :=
  modify (fun w =>
    {| data := data w; loading := b; error := error w;
       console := console w; requests := requests w |}).

Definition setError (b : bool) : M source unit :=
  modify (fun w =>
    {| data := data w; loading := loading w; error := b;
       console := console w; requests := requests w |}).

Definition console_error (args : list logarg) : M source unit :=
  modify (fun w =>
    {| data := data w; loading := loading w; error := error w;
       console := console w ++ [args]; requests := requests w |}).

Definition fetch (r : Request) : M source unit :=
  modify (fun w =>
    {| data := data w; loading := loading w; error := error w;
       console := console w; requests := requests w ++ [r] |}).

(** [fetchSource] up to its [await fetch(...)].  The effect runs at
    mount; its dependencies are the two props, which [Chat] never changes
    for a mounted card. *)
Definition fetchSource_begin (objectId collection : js_string)
  : M source unit :=
  fetch {| url := lit "http://127.0.0.1:8000/api/sources";
           method := lit "POST";
           content_type := lit "application/json";
           body_object_id := objectId;
           body_collection := collection |}.

(** [fetchSource] from the point where the fetch settles. *)
Definition fetchSource_resume (o : outcome SourceData) : M source unit :=
  try_finally
    (try_catch
       (resp <- await_fetch o ;;
        (if negb (fst resp)
         then throw (Error (lit "Failed to fetch source"))
         else ret tt) ;;
        result <- await_json (snd resp) ;;
        setData result)
       (fun err =>
          console_error [LogErr err] ;;
          setError true))
    (setLoading false).

(** The effect of the mount and of the settled fetch together. *)
Definition fetchSource (objectId collection : js_string)
           (o : outcome SourceData) : M source unit :=
  fetchSource_begin objectId collection ;;
  fetchSource_resume o.

(** ** What the component renders *)

(** The card: the label, the date block (when rendered), the [title]
    attribute and the text of the heading, the text of the paragraph,
    and the [href] of the link (when rendered). *)
Record card := {
  label : js_string;
  date_block : option js_string;
  title_attr : option js_string;
  heading : js_string;
  paragraph : js_string;
  link : option js_string
}.

Inductive view :=
| Placeholder
| FailureBanner
| Card (c : card).

Definition sentinel : js_string := lit "PDFchunks1".

Definition render_card (collection : js_string) (d : SourceData) : card :=
  let isChunk := str_eqb collection sentinel in
  let title := if isChunk then pdf_title d else title d in
  let date := if isChunk then pdf_date d else date d in
  let content := if isChunk then chunk_text d else abstract d in
  let url := pdf_url d in
  {| label := if isChunk then lit "Excerpt" else lit "Document";
     date_block := and_then date;
     title_attr := title;
     heading := or_default title (lit "Untitled Document");
     paragraph := text content;
     link := and_then url |}.

(** The three returns of the component: [if (loading)], then
    [if (error || !data)], then the card. *)
Definition render (collection : js_string) (w : source) : view :=
  if loading w then Placeholder
  else
    match error w, data w with
    | false, Some d => Card (render_card collection d)
    | _, _ => FailureBanner
    end.

(** ** Vocabulary for the outcomes of a request *)

(** The fetch rejects. *)
Definition network_failure (o : outcome SourceData) : Prop :=
  exists e, o = NetworkFailure e.

(** A response arrives whose status is not a success status. *)
Definition bad_status (o : outcome SourceData) : Prop :=
  exists b, o = Response false b.

(** A response with a success status arrives and yields no record:
    reading its body fails, or the body is [null]. *)
Definition absent_result (o : outcome SourceData) : Prop :=
  exists b, o = Response true b
            /\ (b = JsonNull \/ exists e, b = Malformed e).

(** A resolver whose fetch has delivered the record [d]. *)
Definition loaded (w : source) (d : SourceData) : Prop :=
  loading w = false /\ error w = false /\ data w = Some d.

End Source.

(** * Chat.tsx: what the component renders *)

Module ChatView.
Import Js Chat.

Inductive Icon := UserIcon | BotIcon | Loader2Icon | SendIcon.

(** The template literal [`${source.object_id}-${idx}`]. *)
Definition source_key (object_id : js_string) (idx : nat) : js_string :=
  object_id ++ lit "-" ++ toString (Z.of_nat idx).

(** A [<Source key=... objectId=... collection=... />] element. *)
Record SourceElement := {
  key : js_string;
  objectId : js_string;
  collection : js_string
}.

(** [array.map((x, idx) => f x idx)], the indices counted from [idx]. *)
Fixpoint map_indexed {A B : Type} (f : A -> nat -> B) (l : list A) (idx : nat)
  : list B :=
  match l with
  | [] => []
  | x :: l' => f x idx :: map_indexed f l' (S idx)
  end.

(** [message.sources && message.sources.length > 0 && (...)]: the strip
    of source cards above the text of a message, when it is rendered. *)
Definition sources_strip (message : Message) : option (list SourceElement) :=
  match sources message with
  | None => None
  | Some l =>
      if (0 <? List.length l)%nat
      then Some (map_indexed
                   (fun source idx =>
                      {| key := source_key (object_id source) idx;
                         objectId := object_id source;
                         collection := ref_collection source |})
                   l 0)
      else None
  end.

(** One entry of [messages.map(...)]: the React key, the direction of the
    row, the avatar, the strip of sources and the markdown source. *)
Record Bubble := {
  bubble_key : js_string;
  row_reverse : bool;
  avatar : Icon;
  strip : option (list SourceElement);
  markdown : js_string
}.

Definition render_message (message : Message) : Bubble :=
  {| bubble_key := id message;
     row_reverse := match role message with
                    | user => true
                    | assistant => false
                    end;
     avatar := match role message with
               | user => UserIcon
               | assistant => BotIcon
               end;
     strip := sources_strip message;
     markdown := content message |}.

(** The parts of the returned tree that depend on the state: the welcome
    block, the bubbles, the "Thinking..." row, the input box and the
    submit button. *)
Record ChatView := {
  welcome : bool;
  bubbles : list Bubble;
  thinking : bool;
  input_value : js_string;
  input_disabled : bool;
  submit_disabled : bool;
  submit_icon : Icon
}.

Definition render (w : chat) : ChatView :=
  {| welcome := Nat.eqb (List.length (messages w)) 0;
     bubbles := map render_message (messages w);
     thinking := isLoading w;
     input_value := input w;
     input_disabled := isLoading w;
     submit_disabled := negb (truthy (trim (input w))) || isLoading w;
     submit_icon := if isLoading w then Loader2Icon else SendIcon |}.

(** The [Source] instance an element mounts: the initial state with the
    mount effect run on the element's props. *)
Definition mount (el : SourceElement) : Source.source :=
  snd (Source.fetchSource_begin (objectId el) (collection el) Source.initial).

End ChatView.

(** * Vocabulary for sessions *)

Module Session.
Import Js Chat.

(** The roles of [k] completed exchanges. *)
Fixpoint turns (k : nat) : list Role :=
  match k with
  | O => []
  | S k' => user :: assistant :: turns k'
  end.

(** What the settled request writes to the console. *)
Definition logged (o : outcome ChatData) : list (list logarg) :=
  match caught o with
  | Some e => [[LogStr (lit "Error:"); LogErr e]]
  | None => []
  end.

(** The events in which no request settles. *)
Definition waiting (es : list event) : bool :=
  forallb (fun e => match e with Settle _ _ => false | _ => true end) es.

(** A reply built by the [catch] block: an assistant message without a
    [sources] property. *)
Definition is_apology (m : Message) : bool :=
  match role m, sources m with
  | assistant, None => true
  | _, _ => false
  end.

(** The state of a session hangs together: the busy flag counts the
    requests in flight, the roles run user, assistant, user, ... with one
    exchange per request, and the console holds one entry per apology. *)
Definition consistent (w : chat) : Prop :=
  inflight w = (if isLoading w then 1 else 0)
  /\ map role (messages w)
     = turns (List.length (requests w) - inflight w)
       ++ (if isLoading w then [user] else [])
  /\ (List.length (requests w) = 0 -> isLoading w = false)
  /\ List.length (console w)
     = List.length (filter is_apology (messages w)).

(** The latest request carried the whole list as it stood when it was
    sent: all of it while the request is pending, all but the reply once
    it has settled. *)
Definition history_sent (w : chat) : Prop :=
  (requests w = [] /\ messages w = [])
  \/ exists rs r tail,
       requests w = rs ++ [r]
       /\ map to_wire (messages w) = body r ++ tail
       /\ List.length tail = if isLoading w then 0 else 1.

End Session.

(** * Source.tsx: an instance over time *)

Module SourceSession.
Import Js Source.

(** A mounted [Source]: its state and the number of fetches pending. *)
Record instance := {
  state : source;
  pending : nat
}.

Definition mounted : instance :=
  {| state := initial; pending := 0 |}.

(** The effect runs (at mount, and again when [objectId] or [collection]
    changes, as its dependency array says), or a pending fetch settles. *)
Inductive event :=
| Effect (objectId collection : js_string)
| Settled (o : outcome SourceData).

Definition step (i : instance) (e : event) : instance :=
  match e with
  | Effect objectId collection =>
      {| state := snd (fetchSource_begin objectId collection (state i));
         pending := S (pending i) |}
  | Settled o =>
      match pending i with
      | O => i
      | S n => {| state := snd (fetchSource_resume o (state i));
                  pending := n |}
      end
  end.

Definition run (i : instance) (es : list event) : instance :=
  fold_left step es i.

End SourceSession.

(** * Facts about strings *)

Section StringFacts.
Import Js.

Lemma str_eqb_eq (a b : js_string) : str_eqb a b = true <-> a = b.
Proof.
  revert b; induction a as [|x a IH]; intros [|y b]; simpl;
    try (split; (discriminate || reflexivity)).
  rewrite andb_true_iff, N.eqb_eq, IH.
  split; [intros [-> ->]; reflexivity | intros [= -> ->]; auto].
Qed.

Lemma str_eqb_neq (a b : js_string) : str_eqb a b = false <-> a <> b.
Proof.
  rewrite <- str_eqb_eq. destruct (str_eqb a b); split; congruence.
Qed.

Lemma trimStart_shape (s : js_string) :
  trimStart s = []
  \/ exists c t, trimStart s = c :: t /\ is_whitespace c = false.
Proof.
  induction s as [|c s IH]; simpl; [now left|].
  destruct (is_whitespace c) eqn:E; [exact IH|].
  right; exists c, s; auto.
Qed.

Lemma trimStart_nil (s : js_string) : trimStart s = [] <-> blank s = true.
Proof.
  induction s as [|c s IH]; simpl; [tauto|].
  destruct (is_whitespace c); simpl; [exact IH|].
  split; discriminate.
Qed.

Lemma blank_rev (s : js_string) : blank (rev s) = blank s.
Proof.
  unfold blank. induction s as [|c s IH]; simpl; [reflexivity|].
  rewrite forallb_app, IH; simpl. rewrite andb_true_r. apply andb_comm.
Qed.

(** [!input.trim()] holds exactly for the blank inputs. *)
Lemma trim_nil (s : js_string) : trim s = [] <-> blank s = true.
Proof.
  unfold trim, trimEnd.
  rewrite <- (rev_involutive []) at 1; simpl rev at 2.
  split.
  - intros H. apply (f_equal (@rev N)) in H.
    rewrite rev_involutive in H; simpl in H.
    apply trimStart_nil in H. rewrite blank_rev in H.
    destruct (trimStart_shape s) as [E | (c & t & E & Hc)].
    + now apply trimStart_nil.
    + rewrite E in H; simpl in H. rewrite Hc in H. discriminate.
  - intros H. apply trimStart_nil in H. rewrite H. reflexivity.
Qed.

Lemma truthy_trim (s : js_string) : truthy (trim s) = negb (blank s).
Proof.
  destruct (blank s) eqn:E.
  - apply trim_nil in E. rewrite E. reflexivity.
  - destruct (trim s) eqn:T; [|reflexivity].
    apply trim_nil in T. congruence.
Qed.

Lemma lit_inj (s t : string) : lit s = lit t -> s = t.
Proof.
  unfold lit. intros H.
  rewrite <- (string_of_list_ascii_of_string s),
          <- (string_of_list_ascii_of_string t).
  f_equal.
  generalize dependent (list_ascii_of_string t).
  induction (list_ascii_of_string s) as [|a l IH]; intros [|b m] H;
    simpl in H; try discriminate; [reflexivity|].
  injection H as Hab Hlm.
  rewrite <- (ascii_N_embedding a), <- (ascii_N_embedding b), Hab.
  f_equal. now apply IH.
Qed.

(** Distinct numbers print differently. *)
Lemma toString_inj (m n : Z) : toString m = toString n -> m = n.
Proof.
  unfold toString. intros H. apply lit_inj in H.
  assert (I : forall z, NilZero.int_of_string
                          (NilZero.string_of_int (Z.to_int z))
                        = Some (Z.to_int z)).
  { intros z. apply NilZero.isi; destruct z; simpl; try discriminate;
      intros [= E]; revert E; apply DecimalPos.Unsigned.to_uint_nonnil. }
  apply (f_equal NilZero.int_of_string) in H.
  rewrite !I in H. injection H as H.
  apply (f_equal Z.of_int) in H. now rewrite !DecimalZ.of_to in H.
Qed.

End StringFacts.

(** * The conversation controller *)

Section ChatFacts.
Import Js Chat.

Lemma begin_rejected (w : chat) (now : Z) :
  blank (input w) = true \/ isLoading w = true ->
  handleSubmit_begin w now w = (Normal Returned, w).
Proof.
  intros H. unfold handleSubmit_begin. rewrite truthy_trim, negb_involutive.
  destruct H as [-> | ->]; [|rewrite orb_true_r]; reflexivity.
Qed.

Lemma begin_accepted (w : chat) (now : Z) :
  blank (input w) = false -> isLoading w = false ->
  handleSubmit_begin w now w =
    (Normal Awaiting,
     {| messages := messages w ++ [userMessage now w];
        input := [];
        isLoading := true;
        console := console w;
        requests :=
          requests w ++
            [{| url := lit "http://127.0.0.1:8000/api/chat";
                method := lit "POST";
                content_type := lit "application/json";
                body := map to_wire (messages w ++ [userMessage now w]) |}];
        inflight := S (inflight w) |}).
Proof.
  intros Hb Hl. unfold handleSubmit_begin.
  rewrite truthy_trim, Hb, Hl. reflexivity.
Qed.

Lemma resume_replied (w : chat) (now : Z) (d : ChatData) :
  handleSubmit_resume now (Response true (JsonData d)) w =
    (Normal tt,
     {| messages := messages w ++ [assistantMessage now d];
        input := input w;
        isLoading := false;
        console := console w;
        requests := requests w;
        inflight := pred (inflight w) |}).
Proof. reflexivity. Qed.

Lemma resume_caught (w : chat) (now : Z) (o : outcome ChatData) (e : exn) :
  caught o = Some e ->
  handleSubmit_resume now o w =
    (Normal tt,
     {| messages := messages w ++ [errorMessage now];
        input := input w;
        isLoading := false;
        console := console w ++ [[LogStr (lit "Error:"); LogErr e]];
        requests := requests w;
        inflight := pred (inflight w) |}).
Proof.
  destruct o as [e' | [|] [e' | | d]]; simpl; intros [= <-]; reflexivity.
Qed.


(** Whatever the outcome, the settled request ends normally, appends
    [reply now o], clears the busy flag and issues no request. *)
Lemma resume_total (w : chat) (now : Z) (o : outcome ChatData) :
  fst (handleSubmit_resume now o w) = Normal tt
  /\ messages (snd (handleSubmit_resume now o w))
     = messages w ++ [reply now o]
  /\ input (snd (handleSubmit_resume now o w)) = input w
  /\ isLoading (snd (handleSubmit_resume now o w)) = false
  /\ requests (snd (handleSubmit_resume now o w)) = requests w
  /\ inflight (snd (handleSubmit_resume now o w)) = pred (inflight w).
Proof.
  destruct (caught o) as [e|] eqn:E.
  - rewrite (resume_caught w now o E); simpl.
    destruct o as [? | [|] [? | | ?]]; try discriminate; simpl; auto 10.
  - destruct o as [? | [|] [? | | d]]; try discriminate.
    rewrite resume_replied; simpl; auto 10.
Qed.

Lemma reply_role (now : Z) (o : outcome ChatData) :
  role (reply now o) = assistant.
Proof. destruct o as [? | [|] [? | | ?]]; reflexivity. Qed.

Lemma handleSubmit_accepted (w : chat) (now1 now2 : Z)
      (o : outcome ChatData) :
  blank (input w) = false -> isLoading w = false ->
  handleSubmit now1 now2 o w =
    handleSubmit_resume now2 o (snd (handleSubmit_begin w now1 w)).
Proof.
  intros Hb Hl. unfold handleSubmit, bind.
  rewrite (begin_accepted w now1 Hb Hl). reflexivity.
Qed.

Lemma handleSubmit_rejected (w : chat) (now1 now2 : Z)
      (o : outcome ChatData) :
  blank (input w) = true \/ isLoading w = true ->
  handleSubmit now1 now2 o w = (Normal tt, w).
Proof.
  intros H. unfold handleSubmit, bind.
  rewrite (begin_rejected w now1 H). reflexivity.
Qed.

End ChatFacts.

(** * Properties of a submit *)

Section SubmitProperties.
Import Js Chat.

(** C1. When the input holds some non-whitespace text and no request is
    in flight, one run of [handleSubmit] ends normally and leaves the
    message list extended by exactly two entries: first a user message
    carrying the trimmed input, then an assistant message, whether the
    request succeeded or failed.  The earlier entries are untouched and
    the length grows by exactly 2. *)
Theorem submit_appends_user_then_assistant
        (w : chat) (now1 now2 : Z) (o : outcome ChatData) :
  blank (input w) = false ->
  isLoading w = false ->
  fst (handleSubmit now1 now2 o w) = Normal tt
  /\ exists u a,
       messages (snd (handleSubmit now1 now2 o w)) = messages w ++ [u; a]
       /\ role u = user
       /\ content u = trim (input w)
       /\ role a = assistant
       /\ List.length (messages (snd (handleSubmit now1 now2 o w)))
          = List.length (messages w) + 2.
Proof.
  intros Hb Hl.
  rewrite (handleSubmit_accepted w now1 now2 o Hb Hl).
  rewrite (begin_accepted w now1 Hb Hl); simpl snd.
  match goal with
  | |- context [handleSubmit_resume now2 o ?w1] =>
      destruct (resume_total w1 now2 o) as (Hn & Hm & _)
  end.
  split; [exact Hn|].
  exists (userMessage now1 w), (reply now2 o).
  rewrite Hm; simpl messages.
  rewrite <- app_assoc; simpl.
  repeat split; auto using reply_role.
  rewrite length_app; reflexivity.
Qed.

Lemma submit_appends_user_then_assistant_witness :
  let w := {| messages := []; input := lit " hi "; isLoading := false;
              console := []; requests := []; inflight := 0 |} in
  let o := NetworkFailure (TypeError (lit "Failed to fetch")) in
  fst (handleSubmit 1000 1005 o w) = Normal tt
  /\ exists u a,
       messages (snd (handleSubmit 1000 1005 o w)) = messages w ++ [u; a]
       /\ role u = user
       /\ content u = trim (input w)
       /\ role a = assistant
       /\ List.length (messages (snd (handleSubmit 1000 1005 o w)))
          = List.length (messages w) + 2.
Proof.
  intros w o.
  apply (submit_appends_user_then_assistant w 1000 1005 o);
    reflexivity.
Defined.

(** C5. When the input is empty or holds only whitespace, or the busy
    flag is set, [handleSubmit] returns at once: the message list, the
    input, the busy flag, the console and the list of issued requests
    are what they were, so no request is issued. *)
Theorem rejected_submit_is_noop (w : chat) (now : Z) :
  blank (input w) = true \/ isLoading w = true ->
  handleSubmit_begin w now w = (Normal Returned, w)
  /\ step w (Submit now) = w
  /\ requests (step w (Submit now)) = requests w
  /\ forall now2 o, handleSubmit now now2 o w = (Normal tt, w).
Proof.
  intros H. pose proof (begin_rejected w now H) as E.
  unfold step. rewrite E; simpl.
  repeat split; intros; auto using handleSubmit_rejected.
Qed.

Lemma rejected_submit_is_noop_witness :
  let w := {| messages := []; input := lit "  "; isLoading := false;
              console := []; requests := []; inflight := 0 |} in
  handleSubmit_begin w 1000 w = (Normal Returned, w)
  /\ step w (Submit 1000) = w
  /\ requests (step w (Submit 1000)) = requests w
  /\ forall now2 o, handleSubmit 1000 now2 o w = (Normal tt, w).
Proof.
  intros w.
  apply (rejected_submit_is_noop w 1000). left. reflexivity.
Defined.

(** C7. An accepted submit issues exactly one request, a POST to the
    chat endpoint, and the [messages] array of its body is the whole
    history in order, the new user message included, each entry cut
    down to its [role] and [content].  The rest of the run issues no
    further request. *)
Theorem accepted_submit_sends_history (w : chat) (now : Z) :
  blank (input w) = false ->
  isLoading w = false ->
  exists r,
    requests (snd (handleSubmit_begin w now w)) = requests w ++ [r]
    /\ body r
       = map (fun msg => {| wire_role := role msg;
                            wire_content := content msg |})
             (messages w ++ [userMessage now w])
    /\ body r = map to_wire (messages (snd (handleSubmit_begin w now w)))
    /\ url r = lit "http://127.0.0.1:8000/api/chat"
    /\ method r = lit "POST"
    /\ forall now2 o,
         requests (snd (handleSubmit now now2 o w)) = requests w ++ [r].
Proof.
  intros Hb Hl. eexists.
  rewrite (begin_accepted w now Hb Hl); simpl.
  split; [reflexivity|].
  repeat split.
  intros now2 o.
  rewrite (handleSubmit_accepted w now now2 o Hb Hl).
  rewrite (begin_accepted w now Hb Hl); simpl snd.
  match goal with
  | |- context [handleSubmit_resume now2 o ?w1] =>
      destruct (resume_total w1 now2 o) as (_ & _ & _ & _ & Hr & _)
  end.
  rewrite Hr. reflexivity.
Qed.

Lemma accepted_submit_sends_history_witness :
  let w := {| messages := [errorMessage 7]; input := lit "why?";
              isLoading := false;
              console := []; requests := []; inflight := 0 |} in
  exists r,
    requests (snd (handleSubmit_begin w 1000 w)) = requests w ++ [r]
    /\ body r
       = map (fun msg => {| wire_role := role msg;
                            wire_content := content msg |})
             (messages w ++ [userMessage 1000 w])
    /\ body r = map to_wire (messages (snd (handleSubmit_begin w 1000 w)))
    /\ url r = lit "http://127.0.0.1:8000/api/chat"
    /\ method r = lit "POST"
    /\ forall now2 o,
         requests (snd (handleSubmit 1000 now2 o w)) = requests w ++ [r].
Proof.
  intros w.
  apply (accepted_submit_sends_history w 1000); reflexivity.
Defined.

End SubmitProperties.

(** * Properties of the reply *)

Section ReplyProperties.
Import Js Chat.

(** C3, as the specification words it, fails: a success body whose
    [response] field is present but is the empty string still gets the
    placeholder as content, so the fallback is not used only when the
    field is absent. *)
Lemma reply_placeholder_counterexample :
  let d := {| response := Some []; data_sources := None |} in
  exists u a,
    messages (step asked (Settle 1005 (Response true (JsonData d))))
    = [u; a]
    /\ response d <> None
    /\ content a = no_answer
    /\ Some (content a) <> response d.
Proof.
  intros d. do 2 eexists.
  split; [reflexivity|].
  repeat split; discriminate.
Qed.

(** C3, amended.  For a chat response with a success status whose body
    is a JSON record, the settled request appends one assistant message.
    Its content is the [response] field when that field is present and
    not the empty string, and the placeholder when the field is absent
    or empty.  Its sources are the [sources] field, or the empty
    sequence when that field is absent.  (A success status whose body is
    [null] or cannot be read is not covered here: it takes the [catch]
    block and gets the apology.) *)
Theorem reply_content_and_sources (w : chat) (now : Z) (d : ChatData) :
  exists a,
    messages (snd (handleSubmit_resume now (Response true (JsonData d)) w))
    = messages w ++ [a]
    /\ role a = assistant
    /\ (forall s, response d = Some s -> s <> [] -> content a = s)
    /\ (response d = None \/ response d = Some [] ->
        content a = no_answer)
    /\ (forall l, data_sources d = Some l -> sources a = Some l)
    /\ (data_sources d = None -> sources a = Some []).
Proof.
  exists (assistantMessage now d).
  rewrite resume_replied; simpl.
  repeat split.
  - intros s -> Hs. destruct s; [contradiction|reflexivity].
  - intros [-> | ->]; reflexivity.
  - intros l ->; reflexivity.
  - intros ->; reflexivity.
Qed.

Lemma reply_content_and_sources_witness :
  let d := {| response := Some (lit "Paris is the capital.");
              data_sources :=
                Some [{| object_id := lit "x1";
                         ref_collection := lit "PDFchunks1" |}] |} in
  exists a,
    messages (snd (handleSubmit_resume 1005 (Response true (JsonData d))
                                       asked))
    = messages asked ++ [a]
    /\ content a = lit "Paris is the capital."
    /\ sources a = Some [{| object_id := lit "x1";
                            ref_collection := lit "PDFchunks1" |}].
Proof.
  intros d.
  destruct (reply_content_and_sources asked 1005 d)
    as (a & Hm & _ & Hc & _ & Hs & _).
  exists a. split; [exact Hm|]. split.
  - apply Hc; [reflexivity | discriminate].
  - apply Hs. reflexivity.
Defined.



End ReplyProperties.

(** * Properties of a session *)

Section SessionProperties.
Import Js Chat.

Lemma step_messages (w : chat) (e : event) :
  messages (step w e) = messages w ++ appended w e.
Proof.
  destruct e as [value | now | now o]; simpl.
  - symmetry; apply app_nil_r.
  - destruct (blank (input w)) eqn:Hb; simpl.
    + rewrite (begin_rejected w now (or_introl Hb)); simpl.
      symmetry; apply app_nil_r.
    + destruct (isLoading w) eqn:Hl.
      * rewrite (begin_rejected w now (or_intror Hl)); simpl.
        symmetry; apply app_nil_r.
      * rewrite (begin_accepted w now Hb Hl). reflexivity.
  - destruct (inflight w) eqn:Hi.
    + symmetry; apply app_nil_r.
    + apply (resume_total w now o).
Qed.

Lemma run_cons (w : chat) (e : event) (es : list event) :
  run w (e :: es) = run (step w e) es.
Proof. reflexivity. Qed.

Lemma run_extends (w : chat) (es : list event) :
  exists suffix, messages (run w es) = messages w ++ suffix.
Proof.
  revert w; induction es as [|e es IH]; intros w.
  - exists []. symmetry; apply app_nil_r.
  - rewrite run_cons. destruct (IH (step w e)) as [l Hl].
    exists (appended w e ++ l).
    rewrite Hl, step_messages. symmetry; apply app_assoc.
Qed.

(** C6. Over any sequence of events, from any state, the message list
    only grows at its end: the list after the events is the list before
    them followed by some suffix, so every message keeps its position
    and its contents, and none is removed. *)
Theorem messages_append_only (w : chat) (es : list event) :
  (exists suffix, messages (run w es) = messages w ++ suffix)
  /\ (forall i m,
        nth_error (messages w) i = Some m ->
        nth_error (messages (run w es)) i = Some m)
  /\ (forall e, exists suffix,
        messages (step w e) = messages w ++ suffix).
Proof.
  destruct (run_extends w es) as [l Hl].
  split; [eauto|]. split.
  - intros i m H. rewrite Hl.
    rewrite nth_error_app1; [exact H|].
    apply nth_error_Some. congruence.
  - intros e. exists (appended w e). apply step_messages.
Qed.

Lemma messages_append_only_witness :
  let es := [Settle 1005 (NetworkFailure (TypeError (lit "Failed to fetch")));
             Change (lit "again"); Submit 2000] in
  nth_error (messages (run asked es)) 0
  = Some {| id := lit "1000"; role := user;
            content := lit "capital of France?"; sources := None |}.
Proof.
  intros es.
  apply (proj1 (proj2 (messages_append_only asked es)) 0%nat).
  reflexivity.
Defined.

(** The busy flag is set exactly while a request is in flight, and at
    most one request is in flight. *)
Lemma inflight_isLoading (es : list event) :
  inflight (run initial es)
  = if isLoading (run initial es) then 1 else 0.
Proof.
  assert (G : forall w, inflight w = (if isLoading w then 1 else 0) ->
                        inflight (run w es)
                        = if isLoading (run w es) then 1 else 0).
  { induction es as [|e es IH]; intros w Hw; [exact Hw|].
    rewrite run_cons. apply IH.
    destruct e as [value | now | now o]; simpl.
    - exact Hw.
    - destruct (blank (input w)) eqn:Hb.
      + rewrite (begin_rejected w now (or_introl Hb)). exact Hw.
      + destruct (isLoading w) eqn:Hl.
        * rewrite (begin_rejected w now (or_intror Hl)); simpl.
          rewrite Hw, Hl. reflexivity.
        * rewrite (begin_accepted w now Hb Hl); simpl.
          rewrite Hw. reflexivity.
    - destruct (inflight w) eqn:Hi.
      + rewrite Hi. exact Hw.
      + destruct (resume_total w now o) as (_ & _ & _ & -> & _ & ->).
        rewrite Hi. destruct (isLoading w); simpl; congruence. }
  apply G. reflexivity.
Qed.

End SessionProperties.

(** * The [id]s of the messages *)

Section Identifiers.
Import Js Chat.

Lemma ids_below_mono (b b' : Z) (w : chat) :
  (b <= b')%Z -> ids_below b w -> ids_below b' w.
Proof.
  intros Hb [Hn Hk]. split; [exact Hn|].
  intros k Hin. destruct (Hk k Hin) as (z & -> & Hz).
  exists z. split; [reflexivity | lia].
Qed.

Lemma ids_below_snoc (b z : Z) (w w' : chat) (m : Message) :
  ids_below b w ->
  (b <= z)%Z ->
  id m = toString z ->
  messages w' = messages w ++ [m] ->
  ids_below (z + 1) w'.
Proof.
  intros [Hn Hk] Hb Hid Hm. unfold ids_below, keys in *.
  rewrite Hm, map_app; simpl. split.
  - apply NoDup_app; repeat split; trivial.
    + repeat constructor. intros [].
    + intros k Hin [<- | []].
      destruct (Hk _ Hin) as (z' & E & Hz').
      rewrite Hid in E. apply toString_inj in E. lia.
  - intros k Hin. apply in_app_or in Hin as [Hin | [<- | []]].
    + destruct (Hk k Hin) as (z' & -> & Hz').
      exists z'. split; [reflexivity | lia].
    + exists z. split; [exact Hid | lia].
Qed.

Lemma ids_below_same (b : Z) (w w' : chat) :
  ids_below b w -> messages w' = messages w ++ [] -> ids_below b w'.
Proof.
  unfold ids_below, keys. rewrite app_nil_r. intros H ->. exact H.
Qed.

Lemma reply_id (now : Z) (o : outcome ChatData) :
  id (reply now o) = toString (now + 1).
Proof. destruct o as [? | [|] [? | | ?]]; reflexivity. Qed.

(** With clock readings kept apart as [spaced] asks, the [id]s stay
    pairwise distinct. *)
Lemma spaced_ids_unique (es : list event) :
  forall (next : Z) (w : chat),
    ids_below next w -> spaced next es -> NoDup (keys (run w es)).
Proof.
  induction es as [|e es IH]; intros next w Hw Hs; [apply Hw|].
  rewrite run_cons. pose proof (step_messages w e) as Hm.
  destruct e as [value | now | now o]; simpl in Hs; unfold appended in Hm.
  - apply (IH next); [|exact Hs].
    eapply ids_below_same; [exact Hw | exact Hm].
  - destruct Hs as [Hle Hs]. apply (IH (now + 1)%Z); [|exact Hs].
    destruct (blank (input w) || isLoading w).
    + apply ids_below_mono with (b := next); [lia|].
      eapply ids_below_same; [exact Hw | exact Hm].
    + eapply ids_below_snoc with (m := userMessage now w);
        [exact Hw | exact Hle | reflexivity | exact Hm].
  - destruct Hs as [Hle Hs]. apply (IH (now + 2)%Z); [|exact Hs].
    destruct (inflight w).
    + apply ids_below_mono with (b := next); [lia|].
      eapply ids_below_same; [exact Hw | exact Hm].
    + replace (now + 2)%Z with (now + 1 + 1)%Z by lia.
      eapply ids_below_snoc with (m := reply now o);
        [exact Hw | exact Hle | apply reply_id | exact Hm].
Qed.

Lemma spaced_session_ids_unique (next : Z) (es : list event) :
  spaced next es -> NoDup (keys (run initial es)).
Proof.
  apply spaced_ids_unique. split; [constructor | intros k []].
Qed.

(** C9 does not hold of the code.  The reply to the first question is
    built at clock reading 1001 and so gets the [id] "1002"; the next
    question is submitted at reading 1002 and gets the same [id].  The
    clock readings of this session strictly increase. *)
Theorem ids_collide_after_reply :
  let answer := {| response := Some (lit "Paris."); data_sources := None |} in
  let es := [Change (lit "capital of France?"); Submit 1000;
             Settle 1001 (Response true (JsonData answer));
             Change (lit "and of Spain?"); Submit 1002] in
  keys (run initial es) = [lit "1000"; lit "1002"; lit "1002"]
  /\ map role (messages (run initial es)) = [user; assistant; user]
  /\ ~ NoDup (keys (run initial es)).
Proof.
  intros answer es.
  split; [reflexivity|]. split; [reflexivity|].
  intros H. change (keys (run initial es))
    with [lit "1000"; lit "1002"; lit "1002"] in H.
  inversion H as [|? ? _ H']. inversion H' as [|? ? Hin _].
  apply Hin. left. reflexivity.
Qed.

End Identifiers.

(** * The source resolver *)

Section ResolverProperties.
Import Js Source.

Lemma fetchSource_resume_delivered (w : source) (d : SourceData) :
  fetchSource_resume (Response true (JsonData d)) w =
    (Normal tt,
     {| data := Some d; loading := false; error := error w;
        console := console w; requests := requests w |}).
Proof. reflexivity. Qed.

Lemma fetchSource_resume_null (w : source) :
  fetchSource_resume (Response true JsonNull) w =
    (Normal tt,
     {| data := None; loading := false; error := error w;
        console := console w; requests := requests w |}).
Proof. reflexivity. Qed.

Lemma fetchSource_resume_caught (w : source) (o : outcome SourceData) :
  network_failure o \/ bad_status o
  \/ (exists e, o = Response true (Malformed e)) ->
  exists e,
    fetchSource_resume o w =
      (Normal tt,
       {| data := data w; loading := false; error := true;
          console := console w ++ [[LogErr e]];
          requests := requests w |}).
Proof.
  intros [[e ->] | [[b ->] | [e ->]]]; eexists; reflexivity.
Qed.

Lemma outcome_cases (o : outcome SourceData) :
  (network_failure o \/ bad_status o \/ absent_result o)
  \/ exists d, o = Response true (JsonData d).
Proof.
  unfold network_failure, bad_status, absent_result.
  destruct o as [e | [|] [e | | d]]; eauto 8.
Qed.

Lemma render_loaded (collection : js_string) (w : source) (d : SourceData) :
  loaded w d -> render collection w = Card (render_card collection d).
Proof.
  intros (Hl & He & Hd). unfold render. rewrite Hl, He, Hd. reflexivity.
Qed.

(** C8. What a resolver renders is fixed by its state, and the three
    cases exclude each other: the placeholder while [loading] is set,
    the failure banner when it is not and either [error] is set or
    there is no [data], the card otherwise.  From the mounted state the
    placeholder shows while the fetch is pending; once it settles the
    banner shows exactly when the fetch was rejected, or the status was
    not a success status, or no record came out of the body, and the
    card shows otherwise.  [fetchSource] ends normally for every
    outcome. *)
Theorem resolver_states (objectId collection : js_string) :
  (forall w,
      (render collection w = Placeholder <-> loading w = true)
      /\ (render collection w = FailureBanner <->
          loading w = false /\ (error w = true \/ data w = None))
      /\ ((exists c, render collection w = Card c) <->
          loading w = false /\ error w = false /\ data w <> None))
  /\ render collection initial = Placeholder
  /\ render collection (snd (fetchSource_begin objectId collection initial))
     = Placeholder
  /\ (forall o w, fst (fetchSource_resume o w) = Normal tt)
  /\ (forall o,
        fst (fetchSource objectId collection o initial) = Normal tt
        /\ (render collection
                   (snd (fetchSource objectId collection o initial))
            = FailureBanner
            <-> network_failure o \/ bad_status o \/ absent_result o)
        /\ (forall d,
              o = Response true (JsonData d) ->
              render collection
                     (snd (fetchSource objectId collection o initial))
              = Card (render_card collection d))).
Proof.
  split; [|split; [reflexivity | split; [reflexivity | split]]].
  - intros w. unfold render.
    destruct (loading w), (error w), (data w) as [d|]; simpl;
      (split; [|split]); split; intros H; try discriminate; auto;
      try (destruct H as [c H]; discriminate);
      try (destruct H as (? & [? | ?]); discriminate);
      try (destruct H as (? & ? & ?); congruence);
      try (repeat split; auto; congruence); eauto.
  - intros o w. destruct o as [e | [|] [e | | d]]; reflexivity.
  - intros o.
    destruct o as [e | [|] [e | | d]]; simpl;
      (split; [reflexivity|]); split;
      try (intros d' [= <-]; reflexivity);
      try (intros d' [=]);
      unfold network_failure, bad_status, absent_result;
      try (split; [intros _|reflexivity]; eauto 8; fail).
    split; [discriminate|].
    intros [[e E] | [[b E] | (b & E & [-> | [e ->]])]]; discriminate.
Qed.

Lemma resolver_states_witness :
  let o := Response true (@JsonNull SourceData) in
  render (lit "papers")
         (snd (fetchSource (lit "x1") (lit "papers") o initial))
  = FailureBanner.
Proof.
  intros o.
  destruct (resolver_states (lit "x1") (lit "papers"))
    as (_ & _ & _ & _ & H).
  destruct (H o) as (_ & [_ Hb] & _).
  apply Hb. right; right. exists JsonNull. split; [reflexivity|].
  left; reflexivity.
Defined.

End ResolverProperties.

(** * The card of a loaded source *)

Section CardProperties.
Import Js Source.

Lemma card_excerpt (d : SourceData) :
  render_card sentinel d =
    {| label := lit "Excerpt";
       date_block := and_then (pdf_date d);
       title_attr := pdf_title d;
       heading := or_default (pdf_title d) (lit "Untitled Document");
       paragraph := text (chunk_text d);
       link := and_then (pdf_url d) |}.
Proof. reflexivity. Qed.

Lemma card_document (collection : js_string) (d : SourceData) :
  collection <> sentinel ->
  render_card collection d =
    {| label := lit "Document";
       date_block := and_then (date d);
       title_attr := title d;
       heading := or_default (title d) (lit "Untitled Document");
       paragraph := text (abstract d);
       link := and_then (pdf_url d) |}.
Proof.
  intros H. apply str_eqb_neq in H. unfold render_card.
  rewrite H. reflexivity.
Qed.

Lemma and_then_Some (x : option js_string) (u : js_string) :
  and_then x = Some u <-> x = Some u /\ u <> [].
Proof.
  destruct x as [[|c s]|]; simpl; split.
  - discriminate.
  - intros [E H]. congruence.
  - intros E. split; [exact E | injection E as <-; discriminate].
  - intros [E _]. exact E.
  - discriminate.
  - intros [E _]. discriminate.
Qed.

(** C2, as the specification words it, fails: when the record carries
    [pdf_url] as the empty string the field is present, yet the card
    shows no link. *)
Lemma link_present_counterexample :
  let d := {| title := Some (lit "T2"); date := Some (lit "2024-02-02");
              abstract := Some (lit "A"); pdf_url := Some [];
              chunk_text := None; pdf_title := None; pdf_date := None |} in
  let w := snd (fetchSource (lit "x2") (lit "papers")
                            (Response true (JsonData d)) initial) in
  exists c,
    render (lit "papers") w = Card c
    /\ pdf_url d <> None
    /\ link c = None.
Proof.
  intros d w. eexists. split; [reflexivity|].
  split; [discriminate | reflexivity].
Qed.

(** C2, amended.  The card of a loaded source is fixed by whether the
    collection is the sentinel "PDFchunks1".  If it is, the label is
    "Excerpt" and the title, the date and the body come from
    [pdf_title], [pdf_date] and [chunk_text]; if it is not, the label
    is "Document" and they come from [title], [date] and [abstract].
    In both cases the link comes from [pdf_url], and it is rendered if
    and only if that field is present and is not the empty string. *)
Theorem card_fields_by_collection
        (collection : js_string) (w : source) (d : SourceData) :
  loaded w d ->
  exists c,
    render collection w = Card c
    /\ (collection = sentinel ->
        label c = lit "Excerpt"
        /\ title_attr c = pdf_title d
        /\ heading c = or_default (pdf_title d) (lit "Untitled Document")
        /\ date_block c = and_then (pdf_date d)
        /\ paragraph c = text (chunk_text d))
    /\ (collection <> sentinel ->
        label c = lit "Document"
        /\ title_attr c = title d
        /\ heading c = or_default (title d) (lit "Untitled Document")
        /\ date_block c = and_then (date d)
        /\ paragraph c = text (abstract d))
    /\ (forall u, link c = Some u <-> pdf_url d = Some u /\ u <> []).
Proof.
  intros H. exists (render_card collection d).
  split; [exact (render_loaded collection H)|].
  split; [|split].
  - intros ->. rewrite card_excerpt; simpl. auto.
  - intros Hc. rewrite (card_document d Hc); simpl. auto.
  - intros u. unfold render_card; simpl. apply and_then_Some.
Qed.

(** The excerpt of the specification: collection "PDFchunks1" and the
    record [{pdf_title: "T", pdf_date: "2024-01-01", chunk_text: "C"}]. *)
Lemma card_fields_by_collection_witness :
  let d := {| title := None; date := None; abstract := None;
              pdf_url := None; chunk_text := Some (lit "C");
              pdf_title := Some (lit "T");
              pdf_date := Some (lit "2024-01-01") |} in
  let w := snd (fetchSource (lit "x1") (lit "PDFchunks1")
                            (Response true (JsonData d)) initial) in
  exists c,
    render (lit "PDFchunks1") w = Card c
    /\ label c = lit "Excerpt"
    /\ heading c = lit "T"
    /\ date_block c = Some (lit "2024-01-01")
    /\ paragraph c = lit "C"
    /\ link c = None.
Proof.
  intros d w.
  assert (L : loaded w d) by (repeat split).
  destruct (@card_fields_by_collection (lit "PDFchunks1") w d L)
    as (c & Hr & He & _ & Hl).
  destruct (He eq_refl) as (H1 & _ & H3 & H4 & H5).
  exists c. repeat split; trivial.
  assert (N : forall u, link c <> Some u).
  { intros u E. apply Hl in E. destruct E as [E _]. discriminate. }
  destruct (link c) as [u|]; [destruct (N u eq_refl) | reflexivity].
Defined.

(** The document of the specification: another collection and the
    record [{title: "T2", date: "2024-02-02", abstract: "A"}]. *)
Example document_card :
  let d := {| title := Some (lit "T2"); date := Some (lit "2024-02-02");
              abstract := Some (lit "A"); pdf_url := None;
              chunk_text := None; pdf_title := None; pdf_date := None |} in
  render_card (lit "papers") d =
    {| label := lit "Document";
       date_block := Some (lit "2024-02-02");
       title_attr := Some (lit "T2");
       heading := lit "T2";
       paragraph := lit "A";
       link := None |}.
Proof. reflexivity. Qed.

(** C10. On the card of a loaded source, when the title field of its
    mode ([pdf_title] for an excerpt, [title] for a document) is absent
    or is the empty string, the heading reads "Untitled Document", which
    is not blank; when the body field of its mode ([chunk_text],
    [abstract]) is absent, the paragraph is blank. *)
Theorem untitled_heading_blank_body
        (collection : js_string) (w : source) (d : SourceData) :
  loaded w d ->
  exists c,
    render collection w = Card c
    /\ (collection = sentinel ->
        pdf_title d = None \/ pdf_title d = Some [] ->
        heading c = lit "Untitled Document" /\ heading c <> [])
    /\ (collection <> sentinel ->
        title d = None \/ title d = Some [] ->
        heading c = lit "Untitled Document" /\ heading c <> [])
    /\ (collection = sentinel -> chunk_text d = None -> paragraph c = [])
    /\ (collection <> sentinel -> abstract d = None -> paragraph c = []).
Proof.
  intros H. exists (render_card collection d).
  split; [exact (render_loaded collection H)|].
  split; [|split; [|split]].
  - intros -> E. rewrite card_excerpt; simpl.
    destruct E as [-> | ->]; split; (reflexivity || discriminate).
  - intros Hc E. rewrite (card_document d Hc); simpl.
    destruct E as [-> | ->]; split; (reflexivity || discriminate).
  - intros -> E. rewrite card_excerpt; simpl. rewrite E. reflexivity.
  - intros Hc E. rewrite (card_document d Hc); simpl. rewrite E.
    reflexivity.
Qed.

Lemma untitled_heading_blank_body_witness :
  let d := {| title := Some []; date := None; abstract := None;
              pdf_url := None; chunk_text := None;
              pdf_title := None; pdf_date := None |} in
  let w := snd (fetchSource (lit "x3") (lit "papers")
                            (Response true (JsonData d)) initial) in
  exists c,
    render (lit "papers") w = Card c
    /\ heading c = lit "Untitled Document"
    /\ paragraph c = [].
Proof.
  intros d w.
  assert (L : loaded w d) by (repeat split).
  destruct (@untitled_heading_blank_body (lit "papers") w d L)
    as (c & Hr & _ & Ht & _ & Hb).
  exists c. split; [exact Hr|]. split.
  - apply Ht; [discriminate | right; reflexivity].
  - apply Hb; [discriminate | reflexivity].
Defined.

End CardProperties.

(** * Sessions of the conversation controller *)

Section SessionInvariants.
Import Js Chat Session.

Lemma resume_eq (w : chat) (now : Z) (o : outcome ChatData) :
  handleSubmit_resume now o w =
    (Normal tt,
     {| messages := messages w ++ [reply now o];
        input := input w;
        isLoading := false;
        console := console w ++ logged o;
        requests := requests w;
        inflight := pred (inflight w) |}).
Proof.
  unfold logged. destruct (caught o) as [e|] eqn:E.
  - rewrite (resume_caught w now o E).
    destruct o as [? | [|] [? | | ?]]; try discriminate; reflexivity.
  - destruct o as [? | [|] [? | | d]]; try discriminate.
    rewrite resume_replied, app_nil_r. reflexivity.
Qed.

(** The four things an event can do. *)
Lemma step_cases (w : chat) (e : event) :
  step w e = w
  \/ (exists value,
        e = Change value
        /\ step w e =
             {| messages := messages w; input := value;
                isLoading := isLoading w; console := console w;
                requests := requests w; inflight := inflight w |})
  \/ (exists now r,
        e = Submit now
        /\ blank (input w) = false
        /\ isLoading w = false
        /\ body r = map to_wire (messages w ++ [userMessage now w])
        /\ step w e =
             {| messages := messages w ++ [userMessage now w]; input := [];
                isLoading := true; console := console w;
                requests := requests w ++ [r];
                inflight := S (inflight w) |})
  \/ (exists now o n,
        e = Settle now o
        /\ inflight w = S n
        /\ step w e =
             {| messages := messages w ++ [reply now o]; input := input w;
                isLoading := false; console := console w ++ logged o;
                requests := requests w; inflight := n |}).
Proof.
  destruct e as [value | now | now o]; simpl.
  - right; left. eauto.
  - destruct (blank (input w)) eqn:Hb.
    + left. now rewrite (begin_rejected w now (or_introl Hb)).
    + destruct (isLoading w) eqn:Hl.
      * left. now rewrite (begin_rejected w now (or_intror Hl)).
      * right; right; left. rewrite (begin_accepted w now Hb Hl).
        exists now,
          {| url := lit "http://127.0.0.1:8000/api/chat";
             method := lit "POST";
             content_type := lit "application/json";
             body := map to_wire (messages w ++ [userMessage now w]) |}.
        repeat split.
  - destruct (inflight w) as [|n] eqn:Hi; [now left|].
    right; right; right. exists now, o, n.
    rewrite resume_eq, Hi. auto.
Qed.

Lemma run_invariant (P : chat -> Prop) :
  (forall w e, P w -> P (step w e)) ->
  forall es w, P w -> P (run w es).
Proof.
  intros Hstep es. induction es as [|e es IH]; intros w Hw; [exact Hw|].
  rewrite run_cons. apply IH, Hstep, Hw.
Qed.

Lemma run_app (w : chat) (es es' : list event) :
  run w (es ++ es') = run (run w es) es'.
Proof. apply fold_left_app. Qed.

Lemma turns_snoc (k : nat) : turns k ++ [user; assistant] = turns (S k).
Proof.
  induction k as [|k IH]; [reflexivity|].
  change (turns (S k)) with (user :: assistant :: turns k).
  simpl app. rewrite IH. reflexivity.
Qed.

Lemma turns_length (k : nat) : List.length (turns k) = 2 * k.
Proof. induction k as [|k IH]; simpl; [reflexivity | rewrite IH; lia]. Qed.

Lemma is_apology_reply (now : Z) (o : outcome ChatData) :
  List.length (filter is_apology [reply now o]) = List.length (logged o).
Proof. destruct o as [? | [|] [? | | ?]]; reflexivity. Qed.

Lemma step_consistent (w : chat) (e : event) :
  consistent w -> consistent (step w e).
Proof.
  intros (Hi & Hr & Hz & Hc).
  destruct (step_cases w e)
    as [-> | [(v & _ & ->) | [(now & r & _ & Hb & Hl & _ & ->)
                            | (now & o & n & _ & Hn & ->)]]];
    unfold consistent; simpl.
  - auto.
  - auto.
  - rewrite Hl in *. rewrite Hi in *. simpl in *.
    rewrite Nat.sub_0_r in Hr.
    rewrite map_app, Hr, length_app, app_nil_r, filter_app, length_app.
    simpl. replace (List.length (requests w) + 1 - 1)
      with (List.length (requests w)) by lia.
    repeat split; auto; lia.
  - destruct (isLoading w) eqn:Hl; [|congruence].
    assert (n = 0) by congruence. subst n.
    rewrite Hn in Hr.
    assert (Hk : List.length (requests w) <> 0).
    { intros E. apply Hz in E. congruence. }
    split; [reflexivity|]. split; [|split; [reflexivity|]].
    + rewrite map_app, Hr, Nat.sub_0_r, app_nil_r, <- app_assoc; simpl.
      rewrite reply_role.
      destruct (List.length (requests w)) as [|k]; [congruence|].
      simpl. rewrite Nat.sub_0_r. apply turns_snoc.
    + rewrite filter_app, !length_app, is_apology_reply. lia.
Qed.

Lemma session_consistent (es : list event) : consistent (run initial es).
Proof.
  apply run_invariant; [apply step_consistent|].
  repeat split.
Qed.

Lemma step_history_sent (w : chat) (e : event) :
  consistent w -> history_sent w -> history_sent (step w e).
Proof.
  intros (Hi & _ & Hz & _) H.
  destruct (step_cases w e)
    as [-> | [(v & _ & ->) | [(now & r & _ & Hb & Hl & Hr & ->)
                            | (now & o & n & _ & Hn & ->)]]];
    unfold history_sent in *; simpl.
  - exact H.
  - exact H.
  - right. exists (requests w), r, []. rewrite app_nil_r. auto.
  - destruct (isLoading w) eqn:Hl; [|congruence].
    destruct H as [[E _] | (rs & r & tail & E & Hm & Ht)].
    + rewrite E in Hz. specialize (Hz eq_refl). congruence.
    + right. destruct tail as [|? ?]; [|discriminate].
      exists rs, r, [to_wire (reply now o)].
      rewrite map_app, Hm, app_nil_r. auto.
Qed.

End SessionInvariants.

(** * What holds throughout a session *)

Section SessionTheorems.
Import Js Chat Session.

(** X1. In every session at most one request is in flight, and the busy
    flag, the "Thinking..." row and the disabled input box are there
    exactly while one is. *)
Theorem one_request_in_flight (es : list event) :
  inflight (run initial es) <= 1
  /\ (inflight (run initial es) = 1 <-> isLoading (run initial es) = true)
  /\ (inflight (run initial es) = 1
      <-> ChatView.thinking (ChatView.render (run initial es)) = true)
  /\ (inflight (run initial es) = 1
      <-> ChatView.input_disabled (ChatView.render (run initial es)) = true).
Proof.
  destruct (session_consistent es) as (Hi & _). simpl.
  destruct (isLoading (run initial es)); rewrite Hi;
    repeat split; intros; (lia || congruence).
Qed.

(** X2. In every session the roles in the list alternate, starting with
    the user: some number of user/assistant exchanges, followed by one
    more user message exactly while the busy flag is set. *)
Theorem roles_alternate (es : list event) :
  exists k,
    map role (messages (run initial es))
    = turns k ++ (if isLoading (run initial es) then [user] else [])
    /\ List.length (requests (run initial es))
       = k + inflight (run initial es).
Proof.
  destruct (session_consistent es) as (Hi & Hr & Hz & _).
  exists (List.length (requests (run initial es))
          - inflight (run initial es)).
  split; [exact Hr|].
  destruct (isLoading (run initial es)); rewrite Hi; [|lia].
  destruct (List.length (requests (run initial es))); [|lia].
  specialize (Hz eq_refl). discriminate.
Qed.

(** X3. In every session each request stands for two messages, its
    question and its reply, the reply missing while the request is in
    flight; and the welcome block is shown exactly as long as no request
    has been sent. *)
Theorem two_messages_per_request (es : list event) :
  List.length (messages (run initial es)) + inflight (run initial es)
  = 2 * List.length (requests (run initial es))
  /\ (ChatView.welcome (ChatView.render (run initial es)) = true
      <-> requests (run initial es) = []).
Proof.
  destruct (session_consistent es) as (Hi & Hr & Hz & _).
  assert (L : List.length (messages (run initial es))
              + inflight (run initial es)
              = 2 * List.length (requests (run initial es))).
  { rewrite <- (length_map role), Hr, length_app, turns_length.
    destruct (isLoading (run initial es)); rewrite Hi; simpl; [|lia].
    destruct (List.length (requests (run initial es))); [|lia].
    specialize (Hz eq_refl). discriminate. }
  split; [exact L|]. simpl. rewrite Nat.eqb_eq.
  destruct (isLoading (run initial es)); rewrite Hi in L.
  - split; intros E.
    + rewrite E in L. lia.
    + rewrite E in L; simpl in L. lia.
  - split; intros E.
    + apply length_zero_iff_nil. lia.
    + rewrite E in L; simpl in L. lia.
Qed.

(** X4. Once a submit has been accepted, nothing the user does while the
    request is pending changes the list or sends a second request: for
    any edits and submits in between, the settled request leaves the list
    extended by the question and its reply, with exactly one request
    sent. *)
Theorem exchange_despite_activity
        (w : chat) (now1 now2 : Z) (o : outcome ChatData) (es : list event) :
  blank (input w) = false ->
  isLoading w = false ->
  waiting es = true ->
  messages (run w (Submit now1 :: es ++ [Settle now2 o]))
  = messages w ++ [userMessage now1 w; reply now2 o]
  /\ messages (run w (Submit now1 :: es))
     = messages w ++ [userMessage now1 w]
  /\ List.length (requests (run w (Submit now1 :: es ++ [Settle now2 o])))
     = S (List.length (requests w))
  /\ isLoading (run w (Submit now1 :: es ++ [Settle now2 o])) = false.
Proof.
  intros Hb Hl Hw.
  assert (F : forall es' w',
             waiting es' = true -> isLoading w' = true ->
             messages (run w' es') = messages w'
             /\ requests (run w' es') = requests w'
             /\ inflight (run w' es') = inflight w').
  { induction es' as [|e es' IH]; intros w' Hw' Hl'; [auto|].
    simpl in Hw'. apply andb_true_iff in Hw' as [He Hw'].
    rewrite run_cons.
    destruct e as [v | now | now o']; try discriminate.
    - destruct (IH (step w' (Change v)) Hw' Hl') as (-> & -> & ->). auto.
    - assert (E : step w' (Submit now) = w').
      { simpl. now rewrite (begin_rejected w' now (or_intror Hl')). }
      rewrite E. apply IH; assumption. }
  rewrite !run_cons, run_app.
  pose proof (f_equal snd (begin_accepted w now1 Hb Hl)) as E.
  change (snd (handleSubmit_begin w now1 w))
    with (step w (Submit now1)) in E.
  cbn [snd] in E.
  set (w1 := step w (Submit now1)) in *.
  assert (Hm1 : messages w1 = messages w ++ [userMessage now1 w])
    by (rewrite E; reflexivity).
  assert (Hr1 : List.length (requests w1) = S (List.length (requests w)))
    by (rewrite E; simpl; rewrite length_app; simpl; lia).
  assert (Hi1 : inflight w1 = S (inflight w)) by (rewrite E; reflexivity).
  assert (Hl1 : isLoading w1 = true) by (rewrite E; reflexivity).
  destruct (F es w1 Hw Hl1) as (Hm & Hr & Hi).
  set (w2 := run w1 es) in *.
  change (run w2 [Settle now2 o]) with (step w2 (Settle now2 o)).
  assert (S2 : step w2 (Settle now2 o)
               = snd (handleSubmit_resume now2 o w2)).
  { unfold step. rewrite Hi, Hi1. reflexivity. }
  rewrite S2, resume_eq; simpl.
  rewrite Hm, Hr, Hm1, Hr1, <- app_assoc; simpl.
  repeat split.
Qed.

Lemma exchange_despite_activity_witness :
  let w := run initial [Change (lit "hello")] in
  let es := [Submit 1001; Change (lit "hello?"); Submit 1002] in
  let o := Response true (JsonData {| response := Some (lit "hi");
                                      data_sources := None |}) in
  messages (run w (Submit 1000 :: es ++ [Settle 1003 o]))
  = messages w ++ [userMessage 1000 w; reply 1003 o]
  /\ messages (run w (Submit 1000 :: es))
     = messages w ++ [userMessage 1000 w]
  /\ List.length (requests (run w (Submit 1000 :: es ++ [Settle 1003 o])))
     = S (List.length (requests w))
  /\ isLoading (run w (Submit 1000 :: es ++ [Settle 1003 o])) = false.
Proof.
  intros w es o.
  apply (@exchange_despite_activity w 1000 1003 o es); reflexivity.
Defined.



(** X8. In every session the console holds exactly one entry for each
    apology in the list: every failure is logged once, and a reply that
    came through logs nothing. *)
Theorem console_counts_apologies (es : list event) :
  List.length (console (run initial es))
  = List.length (filter is_apology (messages (run initial es))).
Proof. apply (session_consistent es). Qed.

(** X9. In every session the body of the latest request is the list as
    it stood when the request was sent, each message cut down to role and
    content: it is the whole list while the request is pending and all
    but the reply afterwards.  Before the first request the list is
    empty. *)
Theorem latest_request_carries_history (es : list event) :
  (requests (run initial es) = [] /\ messages (run initial es) = [])
  \/ exists rs r tail,
       requests (run initial es) = rs ++ [r]
       /\ map to_wire (messages (run initial es)) = body r ++ tail
       /\ List.length tail = if isLoading (run initial es) then 0 else 1.
Proof.
  assert (H : consistent (run initial es) /\ history_sent (run initial es)).
  { apply run_invariant.
    - intros w e [Hc Hh]. split.
      + apply step_consistent, Hc.
      + apply step_history_sent; assumption.
    - split; [repeat split | left; split; reflexivity]. }
  apply H.
Qed.

(** X10. The submit button is disabled exactly when a submit would do
    nothing: whenever the button is enabled a submit is accepted and
    sends a request, and whenever it is disabled the handler returns with
    the state untouched. *)
Theorem button_agrees_with_guard (w : chat) (now : Z) :
  (ChatView.submit_disabled (ChatView.render w) = true
   <-> step w (Submit now) = w)
  /\ (ChatView.submit_disabled (ChatView.render w) = false
      <-> List.length (requests (step w (Submit now)))
          = S (List.length (requests w))).
Proof.
  simpl. rewrite truthy_trim, negb_involutive.
  destruct (blank (input w)) eqn:Hb; simpl.
  - rewrite (begin_rejected w now (or_introl Hb)); simpl.
    repeat split; intros; (reflexivity || discriminate || lia).
  - destruct (isLoading w) eqn:Hl.
    + rewrite (begin_rejected w now (or_intror Hl)); simpl.
      repeat split; intros; (reflexivity || discriminate || lia).
    + rewrite (begin_accepted w now Hb Hl); simpl.
      rewrite length_app; simpl.
      repeat split; intros H; try discriminate; try lia.
      apply (f_equal isLoading) in H. simpl in H. congruence.
Qed.

End SessionTheorems.

(** * The content of the messages *)

Section MessageContent.
Import Js Chat Session.

Lemma trimStart_split (s : js_string) :
  exists l, s = l ++ trimStart s /\ blank l = true.
Proof.
  induction s as [|c s (l & Hs & Hl)]; simpl; [now exists []|].
  destruct (is_whitespace c) eqn:E.
  - exists (c :: l). simpl. rewrite E, Hl, <- Hs. auto.
  - now exists [].
Qed.

Lemma trimEnd_split (s : js_string) :
  exists r, s = trimEnd s ++ r /\ blank r = true.
Proof.
  unfold trimEnd. destruct (trimStart_split (rev s)) as (l & Hs & Hl).
  exists (rev l). rewrite blank_rev. split; [|exact Hl].
  rewrite <- rev_app_distr, <- Hs. symmetry. apply rev_involutive.
Qed.

Lemma trimStart_fixed (c : N) (t : js_string) :
  is_whitespace c = false -> trimStart (c :: t) = c :: t.
Proof. intros H. simpl. rewrite H. reflexivity. Qed.

Lemma trimEnd_fixed (t : js_string) (c : N) :
  is_whitespace c = false -> trimEnd (t ++ [c]) = t ++ [c].
Proof.
  intros H. unfold trimEnd. rewrite rev_app_distr; simpl.
  rewrite H. simpl. rewrite rev_involutive. reflexivity.
Qed.

Lemma trimEnd_shape (s : js_string) :
  trimEnd s = []
  \/ exists t c, trimEnd s = t ++ [c] /\ is_whitespace c = false.
Proof.
  unfold trimEnd.
  destruct (trimStart_shape (rev s)) as [-> | (c & t & -> & Hc)];
    [now left|].
  right. exists (rev t), c. auto.
Qed.

(** A trimmed string is empty, or it begins and ends with a code unit
    that is not whitespace. *)
Lemma trim_shape (s : js_string) :
  trim s = []
  \/ exists c t t' c',
       trim s = c :: t /\ is_whitespace c = false
       /\ trim s = t' ++ [c'] /\ is_whitespace c' = false.
Proof.
  unfold trim.
  destruct (trimStart_shape s) as [-> | (c & t & E & Hc)]; [now left|].
  rewrite E. destruct (trimEnd_split (c :: t)) as (r & Hs & Hr).
  destruct (trimEnd_shape (c :: t)) as [Z | (t' & c' & E' & Hc')].
  - rewrite Z in Hs; simpl in Hs. subst r. simpl in Hr.
    rewrite Hc in Hr. discriminate.
  - right. rewrite E' in *.
    destruct t' as [|x t'']; simpl in Hs; injection Hs as Hx _.
    + exists c', [], [], c'. auto.
    + exists x, (t'' ++ [c']), (x :: t''), c'. subst x. auto.
Qed.

Lemma trim_idempotent (s : js_string) : trim (trim s) = trim s.
Proof.
  destruct (trim_shape s) as [-> | (c & t & t' & c' & E & Hc & E' & Hc')];
    [reflexivity|].
  unfold trim at 1. rewrite E, (@trimStart_fixed c t Hc), <- E, E'.
  apply trimEnd_fixed, Hc'.
Qed.

Lemma trim_split (s : js_string) :
  exists l r, s = l ++ trim s ++ r /\ blank l = true /\ blank r = true.
Proof.
  unfold trim. destruct (trimStart_split s) as (l & Hs & Hl).
  destruct (trimEnd_split (trimStart s)) as (r & Hs' & Hr).
  exists l, r. rewrite <- Hs', <- Hs. auto.
Qed.

(** X6. The content of the message an accepted submit appends is the
    input with the whitespace around it removed: the input is that
    content between two blank strings, and the content is not empty and
    has no whitespace left at either end. *)
Theorem user_content_is_trimmed_input (w : chat) (now : Z) :
  blank (input w) = false ->
  isLoading w = false ->
  exists m l r,
    messages (step w (Submit now)) = messages w ++ [m]
    /\ input w = l ++ content m ++ r
    /\ blank l = true
    /\ blank r = true
    /\ content m <> []
    /\ trim (content m) = content m.
Proof.
  intros Hb Hl. destruct (trim_split (input w)) as (l & r & Hs & Hl' & Hr).
  exists (userMessage now w), l, r.
  unfold step. rewrite (begin_accepted w now Hb Hl); simpl.
  repeat split; trivial.
  - intros E. apply trim_nil in E. congruence.
  - apply trim_idempotent.
Qed.

Lemma user_content_is_trimmed_input_witness :
  let w := run initial [Change (lit "  what is RAG?  ")] in
  exists m l r,
    messages (step w (Submit 1000)) = messages w ++ [m]
    /\ input w = l ++ content m ++ r
    /\ blank l = true
    /\ blank r = true
    /\ content m <> []
    /\ trim (content m) = content m.
Proof.
  intros w.
  apply (@user_content_is_trimmed_input w 1000); reflexivity.
Defined.

Lemma reply_content (now : Z) (o : outcome ChatData) :
  content (reply now o) <> [].
Proof.
  destruct o as [? | [|] [? | | [[[|c s]|] ?]]]; discriminate.
Qed.

(** X7. In every session no message has empty content, and the content
    of every user message is trimmed. *)
Theorem no_empty_message (es : list event) :
  Forall (fun m => content m <> []
                   /\ (role m = user -> trim (content m) = content m))
         (messages (run initial es)).
Proof.
  apply (@run_invariant
           (fun w => Forall (fun m => content m <> []
                                      /\ (role m = user ->
                                          trim (content m) = content m))
                            (messages w))); [|constructor].
  intros w e H. rewrite step_messages. apply Forall_app. split; [exact H|].
  destruct e as [v | now | now o]; simpl.
  - constructor.
  - destruct (blank (input w)) eqn:Hb; simpl; [constructor|].
    destruct (isLoading w); constructor; [|constructor].
    simpl. split.
    + intros E. apply trim_nil in E. congruence.
    + intros _. apply trim_idempotent.
  - destruct (inflight w); constructor; [|constructor].
    split; [apply reply_content|].
    rewrite reply_role. discriminate.
Qed.

End MessageContent.

(** * The strip of source cards *)

Section SourceStrip.
Import Js Chat ChatView.

Lemma digits_no_dash (d : Decimal.uint) :
  ~ In 45%N (lit (NilEmpty.string_of_uint d)).
Proof.
  induction d; simpl; intros H; try destruct H as [H | H];
    try discriminate; auto.
Qed.

Lemma numeral_no_dash (d : Decimal.uint) :
  ~ In 45%N (lit (NilZero.string_of_uint d)).
Proof.
  destruct d;
    try (change (NilZero.string_of_uint ?x)
           with (NilEmpty.string_of_uint x); apply digits_no_dash).
  simpl. intros [H | []]. discriminate.
Qed.

Lemma index_no_dash (idx : nat) : ~ In 45%N (toString (Z.of_nat idx)).
Proof.
  unfold toString. destruct (Z.of_nat idx) as [|p|p] eqn:E.
  - simpl. intros [H | []]. discriminate.
  - apply numeral_no_dash.
  - lia.
Qed.

Lemma last_separator (x : N) (p q s t : js_string) :
  ~ In x s -> ~ In x t -> p ++ x :: s = q ++ x :: t -> p = q /\ s = t.
Proof.
  intros Hs Ht. revert q.
  induction p as [|y p IH]; intros [|z q] E; simpl in E.
  - injection E as ->. auto.
  - injection E as <- ->. destruct Hs. apply in_or_app. right. now left.
  - injection E as -> <-. destruct Ht. apply in_or_app. right. now left.
  - injection E as -> E. destruct (IH q E) as [-> ->]. auto.
Qed.

Lemma source_key_inj (a b : js_string) (i j : nat) :
  source_key a i = source_key b j -> a = b /\ i = j.
Proof.
  unfold source_key. change (lit "-") with [45%N]. simpl. intros E.
  apply last_separator in E; try apply index_no_dash.
  destruct E as [-> E]. apply toString_inj in E. split; [reflexivity | lia].
Qed.

Lemma map_indexed_keys (l : list SourceRef) (n : nat) (k : js_string) :
  In k (map key
           (map_indexed
              (fun source idx =>
                 {| key := source_key (object_id source) idx;
                    objectId := object_id source;
                    collection := ref_collection source |}) l n)) ->
  exists a idx, n <= idx /\ k = source_key a idx.
Proof.
  revert n. induction l as [|r l IH]; intros n; simpl; [intros []|].
  intros [<- | H].
  - exists (object_id r), n. auto.
  - destruct (IH (S n) H) as (a & idx & Hle & ->).
    exists a, idx. split; [lia | reflexivity].
Qed.

Lemma map_indexed_props (l : list SourceRef) (n : nat) :
  let els := map_indexed
               (fun source idx =>
                  {| key := source_key (object_id source) idx;
                     objectId := object_id source;
                     collection := ref_collection source |}) l n in
  map objectId els = map object_id l
  /\ map collection els = map ref_collection l
  /\ NoDup (map key els).
Proof.
  revert n. induction l as [|r l IH]; intros n; simpl.
  - repeat split. constructor.
  - destruct (IH (S n)) as (Ho & Hc & Hk).
    rewrite Ho, Hc. repeat split. constructor; [|exact Hk].
    intros H. apply map_indexed_keys in H as (a & idx & Hle & E).
    apply source_key_inj in E. lia.
Qed.

(** X11. The strip above a reply holds one card for each source of the
    reply, in the same order and with the same identifier and collection,
    and it is left out when the reply has no sources or an empty list of
    them.  A user message and an apology never get a strip. *)
Theorem strip_shows_reply_sources (now : Z) (d : ChatData) :
  (forall l,
      data_sources d = Some l -> l <> [] ->
      exists els,
        strip (render_message (assistantMessage now d)) = Some els
        /\ map objectId els = map object_id l
        /\ map collection els = map ref_collection l)
  /\ (data_sources d = None \/ data_sources d = Some [] ->
      strip (render_message (assistantMessage now d)) = None)
  /\ strip (render_message (errorMessage now)) = None
  /\ (forall w, strip (render_message (userMessage now w)) = None).
Proof.
  split; [|split; [|split; [reflexivity | reflexivity]]].
  - intros l E Hl. simpl. unfold sources_strip; simpl. rewrite E.
    destruct l as [|r l]; [congruence|].
    eexists. split; [reflexivity|].
    split; apply (map_indexed_props (r :: l) 0).
  - intros [E | E]; simpl; unfold sources_strip; simpl; rewrite E;
      reflexivity.
Qed.

Lemma strip_shows_reply_sources_witness :
  let d := {| response := Some (lit "Paris is the capital.");
              data_sources :=
                Some [{| object_id := lit "x1";
                         ref_collection := lit "PDFchunks1" |}] |} in
  exists els,
    strip (render_message (assistantMessage 1005 d)) = Some els
    /\ map objectId els = [lit "x1"]
    /\ map collection els = [lit "PDFchunks1"].
Proof.
  intros d.
  apply (proj1 (strip_shows_reply_sources 1005 d)
               [{| object_id := lit "x1";
                   ref_collection := lit "PDFchunks1" |}]).
  - reflexivity.
  - discriminate.
Defined.

(** X12. The React keys of the cards in one strip are pairwise distinct,
    whatever the identifiers are, also when the same source is cited
    twice. *)
Theorem source_keys_distinct (message : Message) (els : list SourceElement) :
  strip (render_message message) = Some els ->
  NoDup (map key els).
Proof.
  simpl. unfold sources_strip.
  destruct (sources message) as [l|]; [|discriminate].
  destruct (0 <? List.length l)%nat; [|discriminate].
  intros [= <-]. apply (map_indexed_props l 0).
Qed.

Lemma source_keys_distinct_witness :
  let twice := {| object_id := lit "x1"; ref_collection := lit "papers" |} in
  let d := {| response := Some (lit "See the paper.");
              data_sources := Some [twice; twice] |} in
  NoDup [source_key (lit "x1") 0; source_key (lit "x1") 1].
Proof.
  intros twice d.
  apply (@source_keys_distinct
           (assistantMessage 1005 d)
           [{| key := source_key (lit "x1") 0; objectId := lit "x1";
               collection := lit "papers" |};
            {| key := source_key (lit "x1") 1; objectId := lit "x1";
               collection := lit "papers" |}]).
  reflexivity.
Defined.

Lemma map_indexed_mounts (l : list SourceRef) (n : nat) :
  let els := map_indexed
               (fun source idx =>
                  {| key := source_key (object_id source) idx;
                     objectId := object_id source;
                     collection := ref_collection source |}) l n in
  map (fun el => Source.requests (mount el)) els
  = map (fun source =>
           [{| Source.url := lit "http://127.0.0.1:8000/api/sources";
               Source.method := lit "POST";
               Source.content_type := lit "application/json";
               Source.body_object_id := object_id source;
               Source.body_collection := ref_collection source |}])
        l
  /\ Forall (fun el => Source.render (collection el) (mount el)
                       = Source.Placeholder) els.
Proof.
  revert n. induction l as [|r l IH]; intros n; simpl.
  - split; constructor.
  - destruct (IH (S n)) as [Hr Hp].
    split; [f_equal; exact Hr | constructor; [reflexivity | exact Hp]].
Qed.

(** X13. Each card of a strip, once mounted, has sent one request to the
    sources endpoint, carrying the identifier and the collection of the
    source it stands for; the requests follow the order of the reply's
    sources, one per entry, with nothing shared between equal entries. *)
Theorem cards_fetch_their_sources
        (now : Z) (d : ChatData) (l : list SourceRef) :
  data_sources d = Some l ->
  l <> [] ->
  exists els,
    strip (render_message (assistantMessage now d)) = Some els
    /\ map (fun el => Source.requests (mount el)) els
       = map (fun source =>
                [{| Source.url := lit "http://127.0.0.1:8000/api/sources";
                    Source.method := lit "POST";
                    Source.content_type := lit "application/json";
                    Source.body_object_id := object_id source;
                    Source.body_collection := ref_collection source |}])
             l
    /\ Forall (fun el => Source.render (collection el) (mount el)
                         = Source.Placeholder) els.
Proof.
  intros E Hl. simpl. unfold sources_strip; simpl. rewrite E.
  destruct l as [|r l]; [congruence|].
  eexists. split; [reflexivity|].
  apply (map_indexed_mounts (r :: l) 0).
Qed.

Lemma cards_fetch_their_sources_witness :
  let x1 := {| object_id := lit "x1"; ref_collection := lit "PDFchunks1" |} in
  let d := {| response := Some (lit "Paris is the capital.");
              data_sources := Some [x1; x1] |} in
  exists els,
    strip (render_message (assistantMessage 1005 d)) = Some els
    /\ map (fun el => Source.requests (mount el)) els
       = map (fun source =>
                [{| Source.url := lit "http://127.0.0.1:8000/api/sources";
                    Source.method := lit "POST";
                    Source.content_type := lit "application/json";
                    Source.body_object_id := object_id source;
                    Source.body_collection := ref_collection source |}])
             [x1; x1]
    /\ Forall (fun el => Source.render (collection el) (mount el)
                         = Source.Placeholder) els.
Proof.
  intros x1 d.
  apply (@cards_fetch_their_sources 1005 d [x1; x1]).
  - reflexivity.
  - discriminate.
Defined.

End SourceStrip.

(** * The source resolver over time *)

Section ResolverOverTime.
Import Js Source SourceSession.

(** X14. A mounted card sends exactly one request, a POST to the sources
    endpoint whose body holds the two props, and is done loading once it
    settles.  A rejected fetch, a status that is not a success status and
    an unreadable body set the error flag, leave no data and write one
    entry to the console; a body that is [null] or a record sets no error
    flag and writes nothing. *)
Theorem one_fetch_per_card
        (objectId collection : js_string) (o : outcome SourceData) :
  requests (snd (fetchSource objectId collection o initial))
  = [{| url := lit "http://127.0.0.1:8000/api/sources";
        method := lit "POST";
        content_type := lit "application/json";
        body_object_id := objectId;
        body_collection := collection |}]
  /\ loading (snd (fetchSource objectId collection o initial)) = false
  /\ (network_failure o \/ bad_status o
      \/ (exists e, o = Response true (Malformed e)) ->
      error (snd (fetchSource objectId collection o initial)) = true
      /\ data (snd (fetchSource objectId collection o initial)) = None
      /\ exists e,
           console (snd (fetchSource objectId collection o initial))
           = [[LogErr e]])
  /\ (o = Response true JsonNull \/ (exists d, o = Response true (JsonData d))
      ->
      error (snd (fetchSource objectId collection o initial)) = false
      /\ console (snd (fetchSource objectId collection o initial)) = []).
Proof.
  split; [|split; [|split]].
  - destruct o as [e | [|] [e | | d]]; reflexivity.
  - destruct o as [e | [|] [e | | d]]; reflexivity.
  - intros [[e ->] | [[b ->] | [e ->]]]; simpl; eauto.
  - intros [-> | [d ->]]; simpl; auto.
Qed.

Lemma one_fetch_per_card_witness :
  let o := Response false (@JsonNull SourceData) in
  error (snd (fetchSource (lit "x1") (lit "papers") o initial)) = true
  /\ data (snd (fetchSource (lit "x1") (lit "papers") o initial)) = None
  /\ exists e,
       console (snd (fetchSource (lit "x1") (lit "papers") o initial))
       = [[LogErr e]].
Proof.
  intros o.
  destruct (one_fetch_per_card (lit "x1") (lit "papers") o)
    as (_ & _ & H & _).
  apply H. right; left. exists JsonNull. reflexivity.
Defined.

(** X15. Whatever state a resolver is in when a fetch settles, the
    handler ends normally, sends nothing, and leaves the resolver out of
    the placeholder.  It then shows the failure banner exactly when the
    error flag was already set, or the fetch was rejected, or its status
    was not a success status, or no record came out of its body. *)
Theorem settle_on_any_state
        (collection : js_string) (w : source) (o : outcome SourceData) :
  fst (fetchSource_resume o w) = Normal tt
  /\ requests (snd (fetchSource_resume o w)) = requests w
  /\ render collection (snd (fetchSource_resume o w)) <> Placeholder
  /\ (render collection (snd (fetchSource_resume o w)) = FailureBanner
      <-> error w = true
          \/ network_failure o \/ bad_status o \/ absent_result o).
Proof.
  unfold network_failure, bad_status, absent_result.
  destruct o as [e | [|] [e | | d]]; simpl; unfold render; simpl;
    (split; [reflexivity|]); (split; [reflexivity|]);
    (split; [destruct (error w), (data w); discriminate|]).
  - split; [intros _|reflexivity]. eauto.
  - split; [intros _|destruct (error w); reflexivity]. eauto 8.
  - split; [intros _|destruct (error w); reflexivity]. eauto 8.
  - destruct (error w); split; auto; try discriminate.
    intros [H | [[e E] | [[b E] | (b & E & [-> | [e ->]])]]];
      discriminate.
  - split; [intros _|reflexivity]. eauto.
  - split; [intros _|reflexivity]. eauto.
  - split; [intros _|reflexivity]. eauto.
Qed.

Lemma step_keeps_flags (i : instance) (e : event) :
  (loading (state i) = false -> loading (state (step i e)) = false)
  /\ (error (state i) = true -> error (state (step i e)) = true).
Proof.
  destruct e as [a c | o]; simpl.
  - auto.
  - destruct (pending i); [auto|]. simpl.
    destruct o as [e | [|] [e | | d]]; simpl; auto.
Qed.

(** X16. A resolver that has settled once never shows the placeholder
    again, and one whose fetch has failed shows the failure banner from
    then on: the effect may run again and later fetches may succeed, but
    nothing sets [loading] back or clears [error]. *)
Theorem failure_is_sticky
        (collection : js_string) (i : instance) (es : list event) :
  loading (state i) = false ->
  render collection (state (run i es)) <> Placeholder
  /\ (error (state i) = true ->
      render collection (state (run i es)) = FailureBanner).
Proof.
  revert i. induction es as [|e es IH]; intros i Hl.
  - simpl. unfold render. rewrite Hl.
    split; [destruct (error (state i)), (data (state i)); discriminate|].
    intros ->. reflexivity.
  - change (run i (e :: es)) with (run (step i e) es).
    destruct (step_keeps_flags i e) as [Kl Ke].
    destruct (IH (step i e) (Kl Hl)) as [Hp Hb].
    split; [exact Hp | intros He; apply Hb, Ke, He].
Qed.

Lemma failure_is_sticky_witness :
  let d := {| title := Some (lit "T2"); date := None; abstract := None;
              pdf_url := None; chunk_text := None; pdf_title := None;
              pdf_date := None |} in
  let i := run mounted
               [Effect (lit "x1") (lit "papers");
                Settled (NetworkFailure (TypeError (lit "Failed to fetch")))] in
  let es := [Effect (lit "x1") (lit "papers");
             Settled (Response true (JsonData d))] in
  data (state (run i es)) = Some d
  /\ render (lit "papers") (state (run i es)) = FailureBanner.
Proof.
  intros d i es. split; [reflexivity|].
  apply (@failure_is_sticky (lit "papers") i es); reflexivity.
Defined.

End ResolverOverTime.

(** * Identifiers under a spaced clock *)

Section SpacedClock.
Import Js Chat.

(** X17. When no clock reading lies before an earlier one and every
    submit reads a value past the [id] of the reply before it, the [id]s
    of the messages of a session are pairwise distinct; a reply may be
    built in the very millisecond of its question. *)
Theorem ids_distinct_under_spaced_clock (next : Z) (es : list event) :
  spaced next es ->
  NoDup (keys (run initial es))
  /\ NoDup (map ChatView.bubble_key
                (ChatView.bubbles (ChatView.render (run initial es)))).
Proof.
  intros H.
  assert (N : NoDup (keys (run initial es))).
  { apply (@spaced_ids_unique es next initial); [|exact H].
    split; [constructor | intros k []]. }
  split; [exact N|].
  simpl. rewrite map_map. exact N.
Qed.

Lemma ids_distinct_under_spaced_clock_witness :
  NoDup
    (keys (run initial
               [Change (lit "capital of France?"); Submit 1000;
                Settle 1000 (NetworkFailure
                               (TypeError (lit "Failed to fetch")));
                Change (lit "again"); Submit 1002;
                Settle 1750 (Response true (@JsonNull ChatData))])).
Proof.
  refine (proj1 (@ids_distinct_under_spaced_clock 0 _ _)).
  simpl. lia.
Defined.

End SpacedClock.
